(** * Orbital: the generated asset-symbol header

    Source: OrbitalApp/.../DerivedSources/GeneratedAssetSymbols.h

    The header declares three file-scope objects of type
    [static NSString * const], one per image of the asset catalog, each
    preceded by a [///] documentation comment, inside a small preprocessor
    frame that defines and later undefines the macro [AC_SWIFT_PRIVATE].

    The development has three layers:
    - the constants themselves, as Rocq strings under their C names;
    - the header as a sequence of lines, with the preprocessor pass that
      turns it into the table of exported constants;
    - a client translation unit that includes the header and runs
      statements over file-scope objects, where the [const] qualifier
      decides which assignments the compiler accepts. *)

From Stdlib Require Import Ascii String.
From stdpp Require Import base option list strings gmap.

(** ** The constants, as a C client sees them *)

Definition ACImageNameGoogleLogo : string := "GoogleLogo".
Definition ACImageNameOrbitalLogo : string := "OrbitalLogo".
Definition ACImageNameOrbitalLogoDark : string := "OrbitalLogoDark".

(** ** The header, line by line *)

Module Header.

(** The double-quote character, which delimits the resource name inside a
    documentation comment. *)
Definition dquote : ascii := "034"%char.

Definition quoted (s : string) : string :=
  String dquote (s +:+ String dquote EmptyString).

(** One line of the header (blank lines carry nothing and are left out). *)
Inductive line :=
| Import (framework : string)                 (* #import <...> *)
| IfHasAttribute (attr : string)              (* #if __has_attribute(attr) *)
| Define (macro : string) (body : string)     (* #define macro body *)
| Else                                        (* #else *)
| Endif                                       (* #endif *)
| Undef (macro : string)                      (* #undef macro *)
| DocComment (text : string)                  (* /// text *)
| StaticConstNSString (ident : string) (attr : string) (literal : string).
                               (* static NSString * const ident attr = @"literal"; *)

Definition AC_SWIFT_PRIVATE : string := "AC_SWIFT_PRIVATE".

Definition header : list line :=
  [ Import "Foundation/Foundation.h";
    IfHasAttribute "swift_private";
    Define AC_SWIFT_PRIVATE "__attribute__((swift_private))";
    Else;
    Define AC_SWIFT_PRIVATE EmptyString;
    Endif;
    DocComment ("The " +:+ quoted "GoogleLogo" +:+ " asset catalog image resource.");
    StaticConstNSString "ACImageNameGoogleLogo" AC_SWIFT_PRIVATE "GoogleLogo";
    DocComment ("The " +:+ quoted "OrbitalLogo" +:+ " asset catalog image resource.");
    StaticConstNSString "ACImageNameOrbitalLogo" AC_SWIFT_PRIVATE "OrbitalLogo";
    DocComment ("The " +:+ quoted "OrbitalLogoDark" +:+ " asset catalog image resource.");
    StaticConstNSString "ACImageNameOrbitalLogoDark" AC_SWIFT_PRIVATE "OrbitalLogoDark";
    Undef AC_SWIFT_PRIVATE ].

(** An exported constant: the declaration left after preprocessing, with
    the documentation comment that precedes it. *)
Record constant := Constant {
  c_doc : option string;    (* the [///] comment attached to the declaration *)
  c_ident : string;         (* the declared identifier *)
  c_attr : string;          (* what the attribute macro expanded to *)
  c_value : string          (* the characters of the [@"..."] literal *)
}.

#[global] Instance constant_eq_dec : EqDecision constant.
Proof. solve_decision. Defined.

(** *** The preprocessor pass *)

Record pp_state := PP {
  pp_macros : gmap string string;  (* object-like macros in force *)
  pp_cond : list bool;             (* open conditionals, innermost first *)
  pp_doc : option string;          (* documentation comment awaiting its declaration *)
  pp_out : list constant           (* declarations seen so far, in order *)
}.

Definition pp_init : pp_state :=
  {| pp_macros := ∅; pp_cond := []; pp_doc := None; pp_out := [] |}.

(** A line takes effect when every enclosing conditional selected it. *)
Definition active (st : pp_state) : bool := forallb (λ b, b) (pp_cond st).

(** A macro name is replaced by its body; any other token is left alone. *)
Definition expand (macros : gmap string string) (tok : string) : string :=
  default tok (macros !! tok).

Section Preprocess.

(** The compiler's answer to [__has_attribute]. *)
Variable has_attribute : string → bool.

(** [None] is a preprocessing error: [#else] or [#endif] without [#if]. *)
Definition pp_line (st : pp_state) (l : line) : option pp_state :=
  match l with
  | Import _ => Some st
  | IfHasAttribute a =>
      Some {| pp_macros := pp_macros st; pp_cond := has_attribute a :: pp_cond st;
              pp_doc := pp_doc st; pp_out := pp_out st |}
  | Else =>
      match pp_cond st with
      | [] => None
      | b :: rest =>
          Some {| pp_macros := pp_macros st; pp_cond := negb b :: rest;
                  pp_doc := pp_doc st; pp_out := pp_out st |}
      end
  | Endif =>
      match pp_cond st with
      | [] => None
      | _ :: rest =>
          Some {| pp_macros := pp_macros st; pp_cond := rest;
                  pp_doc := pp_doc st; pp_out := pp_out st |}
      end
  | Define m body =>
      Some (if active st
            then {| pp_macros := <[m := body]> (pp_macros st); pp_cond := pp_cond st;
                    pp_doc := pp_doc st; pp_out := pp_out st |}
            else st)
  | Undef m =>
      Some (if active st
            then {| pp_macros := delete m (pp_macros st); pp_cond := pp_cond st;
                    pp_doc := pp_doc st; pp_out := pp_out st |}
            else st)
  | DocComment text =>
      Some (if active st
            then {| pp_macros := pp_macros st; pp_cond := pp_cond st;
                    pp_doc := Some text; pp_out := pp_out st |}
            else st)
  | StaticConstNSString x attr lit =>
      Some (if active st
            then {| pp_macros := pp_macros st; pp_cond := pp_cond st;
                    pp_doc := None;
                    pp_out := pp_out st ++
                      [ {| c_doc := pp_doc st; c_ident := x;
                           c_attr := expand (pp_macros st) attr;
                           c_value := lit |} ] |}
            else st)
  end.

Fixpoint pp_lines (st : pp_state) (ls : list line) : option pp_state :=
  match ls with
  | [] => Some st
  | l :: rest =>
      match pp_line st l with
      | Some st' => pp_lines st' rest
      | None => None
      end
  end.

(** The declarations of a text; an unterminated conditional is an error. *)
Definition preprocess (ls : list line) : option (list constant) :=
  match pp_lines pp_init ls with
  | Some st => match pp_cond st with [] => Some (pp_out st) | _ => None end
  | None => None
  end.

(** The constants the header exports. *)
Definition exports : list constant := default [] (preprocess header).

(** Looking a constant up by its identifier. *)
Definition lookup_constant (x : string) : option string :=
  c_value <$> List.find (λ c, String.eqb (c_ident c) x) exports.

End Preprocess.

End Header.

(** ** Strings: documentation comments, naming scheme, character classes *)

Module Text.

(** The rest of a string after its first double quote. *)
Fixpoint after_quote (s : string) : option string :=
  match s with
  | EmptyString => None
  | String a rest => if Ascii.eqb a Header.dquote then Some rest else after_quote rest
  end.

(** The part of a string before its first double quote. *)
Fixpoint until_quote (s : string) : option string :=
  match s with
  | EmptyString => None
  | String a rest =>
      if Ascii.eqb a Header.dquote then Some EmptyString
      else String a <$> until_quote rest
  end.

(** The resource a documentation comment names: what stands between its
    first pair of double quotes. *)
Definition documented_resource (doc : string) : option string :=
  after_quote doc ≫= until_quote.

(** The generator's prefix for image symbols. *)
Definition image_prefix : string := "ACImageName".

Definition image_symbol (resource : string) : string := image_prefix +:+ resource.

Fixpoint strip_prefix (p s : string) : option string :=
  match p, s with
  | EmptyString, _ => Some s
  | String a p', String b s' => if Ascii.eqb a b then strip_prefix p' s' else None
  | String _ _, EmptyString => None
  end.

Definition strict_prefix (s1 s2 : string) : Prop :=
  String.prefix s1 s2 = true ∧ s1 ≠ s2.

Definition code (a : ascii) : nat := nat_of_ascii a.

Definition is_upper (a : ascii) : bool := (65 <=? code a) && (code a <=? 90).
Definition is_lower (a : ascii) : bool := (97 <=? code a) && (code a <=? 122).
Definition is_letter (a : ascii) : bool := is_upper a || is_lower a.
Definition is_digit (a : ascii) : bool := (48 <=? code a) && (code a <=? 57).
(** Space, tab, line feed, vertical tab, form feed, carriage return. *)
Definition is_space (a : ascii) : bool :=
  (code a =? 32) || ((9 <=? code a) && (code a <=? 13)).
(** Slash and backslash. *)
Definition is_separator (a : ascii) : bool := (code a =? 47) || (code a =? 92).
(** Printable ASCII that is neither a letter, a digit nor the space. *)
Definition is_punct (a : ascii) : bool :=
  (33 <=? code a) && (code a <=? 126) && negb (is_letter a) && negb (is_digit a).

Fixpoint chars (s : string) : list ascii :=
  match s with
  | EmptyString => []
  | String a rest => a :: chars rest
  end.

Definition all_letters (s : string) : bool := forallb is_letter (chars s).

Definition starts_upper (s : string) : bool :=
  match s with
  | EmptyString => false
  | String a _ => is_upper a
  end.

End Text.

(** ** Lookup by name among the exported values *)

Module Search.

Import Header.

(** The constants whose value is exactly the wanted name. *)
Definition by_equality (cs : list constant) (name : string) : list constant :=
  List.filter (λ c, String.eqb (c_value c) name) cs.

(** The constants whose value starts with the wanted name. *)
Definition by_prefix (cs : list constant) (name : string) : list constant :=
  List.filter (λ c, String.prefix name (c_value c)) cs.

(** The constants whose value the wanted name starts with. *)
Definition by_prefix_of (cs : list constant) (name : string) : list constant :=
  List.filter (λ c, String.prefix (c_value c) name) cs.

End Search.

(** ** A translation unit that includes the header *)

Module Client.

Import Header.

(** A file-scope object of type [NSString *]: whether the pointer is
    [const]-qualified, and the characters of the string it points to. *)
Record object := Object { o_const : bool; o_value : string }.

#[global] Instance object_eq_dec : EqDecision object.
Proof. solve_decision. Defined.

Inductive stmt :=
| Decl (x : string) (is_const : bool) (v : string)  (* NSString * [const] x = @"v"; *)
| Assign (x : string) (v : string)                     (* x = @"v"; *)
| Copy (x y : string)                                  (* x = y; *)
| Read (x : string).                                   (* an evaluation of x *)

(** An evaluation of an identifier and the string it yielded. *)
Definition event : Type := string * string.

(** One statement. [None]: the compiler rejects it (redefinition, use of an
    undeclared identifier, assignment to a [const]-qualified object), so no
    program containing it runs. *)
Definition exec (σ : gmap string object) (s : stmt)
    : option (gmap string object * list event) :=
  match s with
  | Decl x k v =>
      match σ !! x with
      | Some _ => None
      | None => Some (<[x := Object k v]> σ, [])
      end
  | Assign x v =>
      match σ !! x with
      | Some (Object false _) => Some (<[x := Object false v]> σ, [])
      | _ => None
      end
  | Copy x y =>
      match σ !! x, σ !! y with
      | Some (Object false _), Some src =>
          Some (<[x := Object false (o_value src)]> σ, [])
      | _, _ => None
      end
  | Read x =>
      match σ !! x with
      | Some o => Some (σ, [(x, o_value o)])
      | None => None
      end
  end.

Fixpoint run (σ : gmap string object) (p : list stmt)
    : option (gmap string object * list event) :=
  match p with
  | [] => Some (σ, [])
  | s :: rest =>
      match exec σ s with
      | Some (σ1, t1) =>
          match run σ1 rest with
          | Some (σ2, t2) => Some (σ2, t1 ++ t2)
          | None => None
          end
      | None => None
      end
  end.

(** What [#import]ing the header puts at file scope. *)
Definition included (cs : list constant) : list stmt :=
  (λ c, Decl (c_ident c) true (c_value c)) <$> cs.

(** A translation unit: the header first, then the client's statements. *)
Definition unit (has_attribute : string → bool) (p : list stmt) : list stmt :=
  included (exports has_attribute) ++ p.

(** The constants hold their declared values in a store. *)
Definition intact (cs : list constant) (σ : gmap string object) : Prop :=
  ∀ c, c ∈ cs → σ !! c_ident c = Some (Object true (c_value c)).

End Client.

(** ** The table the preprocessor yields *)

Module Table.

Import Header.

(** What [AC_SWIFT_PRIVATE] stands for at the declarations. *)
Definition expansion (has_attribute : string → bool) : string :=
  if has_attribute "swift_private" then "__attribute__((swift_private))"
  else EmptyString.

Definition entry (attr x v : string) : constant :=
  {| c_doc := Some ("The " +:+ quoted v +:+ " asset catalog image resource.");
     c_ident := x; c_attr := attr; c_value := v |}.

Definition GoogleLogo (attr : string) : constant :=
  entry attr "ACImageNameGoogleLogo" "GoogleLogo".
Definition OrbitalLogo (attr : string) : constant :=
  entry attr "ACImageNameOrbitalLogo" "OrbitalLogo".
Definition OrbitalLogoDark (attr : string) : constant :=
  entry attr "ACImageNameOrbitalLogoDark" "OrbitalLogoDark".

Definition entries (attr : string) : list constant :=
  [ GoogleLogo attr; OrbitalLogo attr; OrbitalLogoDark attr ].

(** Two compilers: one that knows the attribute, one that knows none. *)
Definition with_swift_private : string → bool :=
  λ a, String.eqb a "swift_private".
Definition without_attributes : string → bool := λ _, false.

End Table.

(** ** A sample client *)

Module Sample.

Import Header Client.

(** A client that keeps a variable of its own, copies a constant into it,
    overwrites it, and evaluates a constant and the variable. *)
Definition session : list stmt :=
  [ Decl "title" false "Welcome";
    Copy "title" "ACImageNameOrbitalLogo";
    Read "title";
    Assign "title" "Orbital";
    Read "ACImageNameGoogleLogo";
    Read "title" ].

(** The file scope right after the header. *)
Definition scope0 : gmap string object :=
  <["ACImageNameOrbitalLogoDark" := Object true "OrbitalLogoDark"]>
    (<["ACImageNameOrbitalLogo" := Object true "OrbitalLogo"]>
      (<["ACImageNameGoogleLogo" := Object true "GoogleLogo"]> ∅)).

(** The file scope after the session. *)
Definition scope1 : gmap string object :=
  <["title" := Object false "Orbital"]> scope0.

Definition trace1 : list event :=
  [ ("title", "OrbitalLogo");
    ("ACImageNameGoogleLogo", "GoogleLogo");
    ("title", "Orbital") ].

End Sample.

(** ** Contexts in which the header is included *)

Module Context.

Import Header Client.

(** The identifier a statement defines or assigns, if any. *)
Definition target (s : stmt) : option string :=
  match s with
  | Decl x _ _ => Some x
  | Assign x _ => Some x
  | Copy x _ => Some x
  | Read _ => None
  end.


(** An includer inside a conditional group that was not selected. *)
Definition skipped : pp_state :=
  {| pp_macros := {[ "DEBUG" := "1" ]}; pp_cond := [false];
     pp_doc := None; pp_out := [] |}.

(** A file scope in which the client already has a variable. *)
Definition busy : gmap string object :=
  {[ "title" := Object false "Welcome" ]}.

(** A file scope in which an identifier of the header is taken. *)
Definition taken : gmap string object :=
  {[ "ACImageNameOrbitalLogo" := Object false "Mine" ]}.

End Context.

(** * Properties *)

Import Header Text Search Client Table Sample Context.

(** ** Evaluating the preprocessor on the header *)

(** The header preprocesses without error under every compiler. *)
Lemma preprocess_header has :
  preprocess has header = Some (entries (expansion has)).
Proof.
  unfold preprocess, header, expansion. cbn.
  destruct (has "swift_private"); reflexivity.
Qed.

Lemma exports_entries has : exports has = entries (expansion has).
Proof. unfold exports. now rewrite preprocess_header. Qed.

(** Case analysis on a member of the table. *)
Lemma elem_of_exports has c :
  c ∈ exports has →
  c = GoogleLogo (expansion has)
  ∨ c = OrbitalLogo (expansion has)
  ∨ c = OrbitalLogoDark (expansion has).
Proof.
  rewrite exports_entries. unfold entries.
  rewrite !elem_of_cons, elem_of_nil. tauto.
Qed.

Ltac each_export H :=
  apply elem_of_exports in H; destruct H as [-> | [-> | ->]].

Lemma exports_NoDup_ident has : NoDup (c_ident <$> exports has).
Proof.
  rewrite exports_entries. cbn.
  repeat (apply NoDup_cons; split;
          [rewrite ?elem_of_cons, elem_of_nil; intuition discriminate |]).
  apply NoDup_nil_2.
Qed.

(** [find] returns the entry of an identifier that occurs once. *)
Lemma find_ident (cs : list constant) c :
  NoDup (c_ident <$> cs) → c ∈ cs →
  List.find (λ d, String.eqb (c_ident d) (c_ident c)) cs = Some c.
Proof.
  induction cs as [| d cs IH]; intros Hnd Hin.
  - now apply elem_of_nil in Hin.
  - rewrite fmap_cons in Hnd. apply NoDup_cons in Hnd as [Hd Hnd].
    cbn. destruct (String.eqb_spec (c_ident d) (c_ident c)) as [Heq | Hne].
    + apply elem_of_cons in Hin as [-> | Hin]; [reflexivity |].
      exfalso. apply Hd. rewrite Heq. now apply list_elem_of_fmap_2.
    + apply elem_of_cons in Hin as [-> | Hin]; [congruence |]. now apply IH.
Qed.

Lemma lookup_constant_export has c :
  c ∈ exports has → lookup_constant has (c_ident c) = Some (c_value c).
Proof.
  intros Hc. unfold lookup_constant.
  rewrite (find_ident _ c); [reflexivity | apply exports_NoDup_ident | exact Hc].
Qed.

(** ** C1: the exported constants *)

(** C1. The header exports exactly the identifiers ACImageNameGoogleLogo,
    ACImageNameOrbitalLogo and ACImageNameOrbitalLogoDark, in this order,
    with the values GoogleLogo, OrbitalLogo and OrbitalLogoDark; the value
    of each is the resource name quoted in its documentation comment; and
    looking the identifiers up gives the constants of the same names. *)
Theorem exported_constants_exact (has : string → bool) :
  (λ c, (c_ident c, c_value c)) <$> exports has =
    [ ("ACImageNameGoogleLogo", "GoogleLogo");
      ("ACImageNameOrbitalLogo", "OrbitalLogo");
      ("ACImageNameOrbitalLogoDark", "OrbitalLogoDark") ]
  ∧ Forall (λ c, c_doc c ≫= documented_resource = Some (c_value c)) (exports has)
  ∧ lookup_constant has "ACImageNameGoogleLogo" = Some ACImageNameGoogleLogo
  ∧ lookup_constant has "ACImageNameOrbitalLogo" = Some ACImageNameOrbitalLogo
  ∧ lookup_constant has "ACImageNameOrbitalLogoDark" = Some ACImageNameOrbitalLogoDark.
Proof.
  split; [| split].
  - now rewrite exports_entries.
  - rewrite exports_entries. unfold entries.
    repeat (apply Forall_cons; split; [reflexivity |]). apply Forall_nil_2.
  - unfold lookup_constant. now rewrite exports_entries.
Qed.

(** ** C2: distinct constants, distinct values *)

(** C2. Two exported constants with different identifiers have different
    string values: no constant is an alias of another. *)
Theorem distinct_constants_distinct_values (has : string → bool) (c1 c2 : constant) :
  c1 ∈ exports has → c2 ∈ exports has →
  c_ident c1 ≠ c_ident c2 → c_value c1 ≠ c_value c2.
Proof.
  intros H1 H2. each_export H1; each_export H2; cbn; congruence.
Qed.

Lemma distinct_constants_distinct_values_witness :
  GoogleLogo EmptyString ∈ exports without_attributes
  ∧ OrbitalLogoDark EmptyString ∈ exports without_attributes
  ∧ c_ident (GoogleLogo EmptyString) ≠ c_ident (OrbitalLogoDark EmptyString)
  ∧ c_value (GoogleLogo EmptyString) ≠ c_value (OrbitalLogoDark EmptyString).
Proof.
  assert (H1 : GoogleLogo EmptyString ∈ exports without_attributes)
    by (vm_compute; apply list_elem_of_here).
  assert (H2 : OrbitalLogoDark EmptyString ∈ exports without_attributes)
    by (vm_compute; do 2 apply list_elem_of_further; apply list_elem_of_here).
  assert (H3 : c_ident (GoogleLogo EmptyString) ≠ c_ident (OrbitalLogoDark EmptyString))
    by (vm_compute; discriminate).
  split; [exact H1 | split; [exact H2 | split; [exact H3 |]]].
  exact (distinct_constants_distinct_values without_attributes _ _ H1 H2 H3).
Defined.

(** ** C3: values are not empty *)

(** C3. The string value of every exported constant is non-empty. *)
Theorem values_nonempty (has : string → bool) (c : constant) :
  c ∈ exports has → c_value c ≠ EmptyString ∧ 0 < String.length (c_value c).
Proof.
  intros H. each_export H; cbn; split; (discriminate || lia).
Qed.

Lemma values_nonempty_witness :
  OrbitalLogo EmptyString ∈ exports without_attributes
  ∧ c_value (OrbitalLogo EmptyString) ≠ EmptyString
  ∧ 0 < String.length (c_value (OrbitalLogo EmptyString)).
Proof.
  assert (H : OrbitalLogo EmptyString ∈ exports without_attributes)
    by (vm_compute; apply list_elem_of_further, list_elem_of_here).
  split; [exact H |].
  exact (values_nonempty without_attributes _ H).
Defined.

(** ** C7: the naming scheme *)

Lemma strip_prefix_append (p s : string) : strip_prefix p (p +:+ s) = Some s.
Proof.
  induction p as [| a p IH]; [reflexivity |].
  change (String a p +:+ s) with (String a (p +:+ s)).
  cbn [strip_prefix]. now rewrite Ascii.eqb_refl.
Qed.

Lemma strip_prefix_Some (p s r : string) :
  strip_prefix p s = Some r → s = p +:+ r.
Proof.
  revert s. induction p as [| a p IH]; intros s.
  - cbn [strip_prefix]. intros [= ->]. reflexivity.
  - destruct s as [| b s]; cbn [strip_prefix]; [discriminate |].
    destruct (Ascii.eqb_spec a b) as [-> | _]; [| discriminate].
    intros H. now rewrite (IH _ H).
Qed.

Lemma image_symbol_inj (r1 r2 : string) :
  image_symbol r1 = image_symbol r2 → r1 = r2.
Proof.
  intros H. pose proof (strip_prefix_append image_prefix r1) as H1.
  fold (image_symbol r1) in H1. rewrite H in H1. unfold image_symbol in H1.
  rewrite strip_prefix_append in H1. congruence.
Qed.

Lemma ident_image_symbol has c :
  c ∈ exports has → c_ident c = image_symbol (c_value c).
Proof. intros H. each_export H; reflexivity. Qed.

(** C7. The identifier of every exported constant is ACImageName followed
    by its value; stripping that prefix from the identifier gives back the
    value; and constants with equal values have equal identifiers. *)
Theorem naming_round_trip (has : string → bool) (c : constant) :
  c ∈ exports has →
  c_ident c = image_symbol (c_value c)
  ∧ strip_prefix image_prefix (c_ident c) = Some (c_value c)
  ∧ Forall (λ d, c_value d = c_value c → c_ident d = c_ident c) (exports has).
Proof.
  intros H. pose proof (ident_image_symbol has c H) as Hid.
  split; [exact Hid | split].
  - rewrite Hid. apply strip_prefix_append.
  - apply Forall_forall. intros d Hd Hv.
    rewrite Hid, (ident_image_symbol has d Hd). now rewrite Hv.
Qed.

Lemma naming_round_trip_witness :
  OrbitalLogoDark EmptyString ∈ exports without_attributes
  ∧ c_ident (OrbitalLogoDark EmptyString)
    = image_symbol (c_value (OrbitalLogoDark EmptyString))
  ∧ strip_prefix image_prefix (c_ident (OrbitalLogoDark EmptyString))
    = Some (c_value (OrbitalLogoDark EmptyString)).
Proof.
  assert (H : OrbitalLogoDark EmptyString ∈ exports without_attributes)
    by (vm_compute; do 2 apply list_elem_of_further; apply list_elem_of_here).
  split; [exact H |].
  destruct (naming_round_trip without_attributes _ H) as (H1 & H2 & _).
  split; [exact H1 | exact H2].
Defined.

(** ** C8: one value is a prefix of another *)

(** C8. OrbitalLogo and OrbitalLogoDark are the values of two different
    exported constants and the first is a strict prefix of the second.
    Searching the table for a value by equality finds its constant alone;
    searching by prefix finds both constants, whether the wanted name is
    matched against the start of the values or the values against the
    start of the wanted name. *)
Theorem prefix_related_values (has : string → bool) :
  ∃ c1 c2,
    c1 ∈ exports has ∧ c2 ∈ exports has ∧ c_ident c1 ≠ c_ident c2
    ∧ c_value c1 = "OrbitalLogo" ∧ c_value c2 = "OrbitalLogoDark"
    ∧ strict_prefix (c_value c1) (c_value c2)
    ∧ Forall (λ c, by_equality (exports has) (c_value c) = [c]) (exports has)
    ∧ by_prefix (exports has) (c_value c1) = [c1; c2]
    ∧ by_prefix_of (exports has) (c_value c2) = [c1; c2].
Proof.
  exists (OrbitalLogo (expansion has)), (OrbitalLogoDark (expansion has)).
  rewrite exports_entries. unfold entries.
  repeat split.
  - apply list_elem_of_further, list_elem_of_here.
  - do 2 apply list_elem_of_further. apply list_elem_of_here.
  - discriminate.
  - discriminate.
  - repeat (apply Forall_cons; split; [reflexivity |]). apply Forall_nil_2.
Qed.

(** ** C9: the characters of the values *)

Lemma letter_exclusive (a : ascii) :
  is_letter a = true →
  is_digit a = false ∧ is_space a = false
  ∧ is_separator a = false ∧ is_punct a = false.
Proof.
  unfold is_punct, is_letter, is_digit, is_space, is_separator, is_upper, is_lower.
  generalize (code a). intros n H.
  repeat split; apply not_true_iff_false; revert H;
    rewrite ?orb_true_iff, ?andb_true_iff, ?negb_true_iff,
      ?orb_false_iff, ?andb_false_iff, ?Nat.leb_le, ?Nat.leb_gt, ?Nat.eqb_eq;
    lia.
Qed.

Lemma all_letters_Forall (s : string) :
  all_letters s = true → Forall (λ a, is_letter a = true) (chars s).
Proof.
  unfold all_letters. rewrite forallb_forall, Forall_forall.
  intros H a Ha. apply H. now apply list_elem_of_In.
Qed.

(** C9. The value of every exported constant is made of ASCII letters only
    (so it holds no digit, white space, slash, backslash or punctuation)
    and its first character is an upper-case letter. *)
Theorem values_are_letters (has : string → bool) (c : constant) :
  c ∈ exports has →
  all_letters (c_value c) = true
  ∧ starts_upper (c_value c) = true
  ∧ Forall (λ a, is_letter a = true ∧ is_digit a = false ∧ is_space a = false
                 ∧ is_separator a = false ∧ is_punct a = false)
           (chars (c_value c)).
Proof.
  intros H.
  assert (Hl : all_letters (c_value c) = true) by (each_export H; reflexivity).
  split; [exact Hl | split].
  - each_export H; reflexivity.
  - eapply Forall_impl; [apply all_letters_Forall, Hl |].
    intros a Ha. split; [exact Ha | now apply letter_exclusive].
Qed.

Lemma values_are_letters_witness :
  GoogleLogo EmptyString ∈ exports without_attributes
  ∧ all_letters (c_value (GoogleLogo EmptyString)) = true
  ∧ starts_upper (c_value (GoogleLogo EmptyString)) = true.
Proof.
  assert (H : GoogleLogo EmptyString ∈ exports without_attributes)
    by (vm_compute; apply list_elem_of_here).
  split; [exact H |].
  destruct (values_are_letters without_attributes _ H) as (H1 & H2 & _).
  split; [exact H1 | exact H2].
Defined.

(** ** Running a translation unit *)

Lemma run_app (σ : gmap string object) (p q : list stmt) :
  run σ (p ++ q) =
    match run σ p with
    | Some (σ1, t1) =>
        match run σ1 q with
        | Some (σ2, t2) => Some (σ2, t1 ++ t2)
        | None => None
        end
    | None => None
    end.
Proof.
  revert σ. induction p as [| s p IH]; intros σ; cbn [run app].
  - now destruct (run σ q) as [[σ2 t2] |].
  - destruct (exec σ s) as [[σ1 t1] |]; [| reflexivity].
    rewrite IH. destruct (run σ1 p) as [[σ2 t2] |]; [| reflexivity].
    destruct (run σ2 q) as [[σ3 t3] |]; [| reflexivity].
    now rewrite app_assoc.
Qed.

(** A statement the compiler accepts leaves every [const] object of the
    header as it was, and an evaluation of one yields its declared value. *)
Lemma exec_intact (cs : list constant) (σ σ' : gmap string object) s t :
  intact cs σ → exec σ s = Some (σ', t) →
  intact cs σ' ∧ ∀ c v, c ∈ cs → (c_ident c, v) ∈ t → v = c_value c.
Proof.
  intros Hi He. destruct s as [x k v | x v | x y | x]; cbn [exec] in He.
  - destruct (σ !! x) as [o |] eqn:Hx; [discriminate |].
    injection He as <- <-. split.
    + intros c Hc. rewrite lookup_insert_ne; [now apply Hi |].
      intros ->. rewrite (Hi c Hc) in Hx. discriminate.
    + intros c w _ Hw. now apply elem_of_nil in Hw.
  - destruct (σ !! x) as [[[] old] |] eqn:Hx; try discriminate.
    injection He as <- <-. split.
    + intros c Hc. rewrite lookup_insert_ne; [now apply Hi |].
      intros ->. rewrite (Hi c Hc) in Hx. discriminate.
    + intros c w _ Hw. now apply elem_of_nil in Hw.
  - destruct (σ !! x) as [[[] old] |] eqn:Hx; try discriminate.
    destruct (σ !! y) as [src |]; [| discriminate].
    injection He as <- <-. split.
    + intros c Hc. rewrite lookup_insert_ne; [now apply Hi |].
      intros ->. rewrite (Hi c Hc) in Hx. discriminate.
    + intros c w _ Hw. now apply elem_of_nil in Hw.
  - destruct (σ !! x) as [o |] eqn:Hx; [| discriminate].
    injection He as <- <-. split; [exact Hi |].
    intros c w Hc Hw. apply list_elem_of_singleton in Hw.
    injection Hw as <- ->. rewrite (Hi c Hc) in Hx. now injection Hx as <-.
Qed.

Lemma run_intact (cs : list constant) (p : list stmt) :
  ∀ (σ σ' : gmap string object) t,
    intact cs σ → run σ p = Some (σ', t) →
    intact cs σ' ∧ ∀ c v, c ∈ cs → (c_ident c, v) ∈ t → v = c_value c.
Proof.
  induction p as [| s p IH]; intros σ σ' t Hi Hr; cbn [run] in Hr.
  - injection Hr as <- <-. split; [exact Hi |].
    intros c v _ Hv. now apply elem_of_nil in Hv.
  - destruct (exec σ s) as [[σ1 t1] |] eqn:He; [| discriminate].
    destruct (run σ1 p) as [[σ2 t2] |] eqn:Hp; [| discriminate].
    injection Hr as <- <-.
    destruct (exec_intact cs σ σ1 s t1 Hi He) as [Hi1 Hv1].
    destruct (IH σ1 σ2 t2 Hi1 Hp) as [Hi2 Hv2].
    split; [exact Hi2 |].
    intros c v Hc Hv. apply elem_of_app in Hv as [Hv | Hv]; eauto.
Qed.

(** Declaring constants with pairwise different, unused identifiers is
    accepted, evaluates nothing, and touches no other identifier. *)
Lemma run_included (cs : list constant) :
  ∀ σ : gmap string object,
    NoDup (c_ident <$> cs) →
    (∀ c, c ∈ cs → σ !! c_ident c = None) →
    ∃ σ', run σ (included cs) = Some (σ', [])
          ∧ intact cs σ'
          ∧ ∀ x, x ∉ c_ident <$> cs → σ' !! x = σ !! x.
Proof.
  induction cs as [| d cs IH]; intros σ Hnd Hfree.
  - exists σ. split; [reflexivity | split; [| reflexivity]].
    intros c Hc. now apply elem_of_nil in Hc.
  - rewrite fmap_cons in Hnd. apply NoDup_cons in Hnd as [Hd Hnd].
    unfold included. rewrite fmap_cons. fold (included cs). cbn [run exec].
    rewrite (Hfree d) by apply list_elem_of_here.
    destruct (IH (<[c_ident d := Object true (c_value d)]> σ) Hnd)
      as (σ' & Hrun & Hin & Hout).
    { intros c Hc. rewrite lookup_insert_ne.
      - apply Hfree. now apply list_elem_of_further.
      - intros Heq. apply Hd. rewrite Heq. now apply list_elem_of_fmap_2. }
    exists σ'. rewrite Hrun. split; [reflexivity | split].
    + intros c Hc. apply elem_of_cons in Hc as [-> | Hc]; [| now apply Hin].
      rewrite (Hout _ Hd). apply lookup_insert_eq.
    + intros x Hx. rewrite fmap_cons in Hx. apply not_elem_of_cons in Hx as [Hne Hx].
      rewrite (Hout x Hx). now apply lookup_insert_ne.
Qed.

(** Including the header into an empty file scope always succeeds. *)
Lemma header_included has :
  ∃ σ0, run ∅ (included (exports has)) = Some (σ0, [])
        ∧ intact (exports has) σ0.
Proof.
  destruct (run_included (exports has) ∅ (exports_NoDup_ident has))
    as (σ0 & Hrun & Hin & _).
  - intros c _. apply lookup_empty.
  - now exists σ0.
Qed.

(** The constants are intact after any unit that compiles, and its
    evaluations of constants yield the declared values. *)
Lemma unit_intact has (p : list stmt) (σ : gmap string object) t :
  run ∅ (unit has p) = Some (σ, t) →
  intact (exports has) σ
  ∧ ∀ c v, c ∈ exports has → (c_ident c, v) ∈ t → v = c_value c.
Proof.
  unfold unit. rewrite run_app.
  destruct (header_included has) as (σ0 & -> & Hi0).
  destruct (run σ0 p) as [[σ1 t1] |] eqn:Hp; [| discriminate].
  intros [= <- <-]. exact (run_intact _ p σ0 σ1 t1 Hi0 Hp).
Qed.

(** The table of one compiler and that of another agree on identifiers
    and values. *)
Lemma exports_same_idents has1 has2 :
  c_ident <$> exports has1 = c_ident <$> exports has2.
Proof. now rewrite !exports_entries. Qed.

Lemma exports_same_value has1 has2 c1 c2 :
  c1 ∈ exports has1 → c2 ∈ exports has2 →
  c_ident c1 = c_ident c2 → c_value c1 = c_value c2.
Proof.
  intros H1 H2. each_export H1; each_export H2; cbn; congruence.
Qed.

(** The sample session compiles and runs as expected, under either
    compiler. *)
Example run_header_sample :
  run ∅ (included (exports without_attributes)) = Some (scope0, []).
Proof. vm_compute. reflexivity. Qed.

Example run_session_sample : run scope0 session = Some (scope1, trace1).
Proof. vm_compute. reflexivity. Qed.

Example run_unit_sample :
  run ∅ (unit with_swift_private session) = Some (scope1, trace1).
Proof. vm_compute. reflexivity. Qed.

(** Writing to a constant, in either way, does not compile, and neither
    does a second definition of its identifier. *)
Example assign_constant_rejected :
  run ∅ (unit with_swift_private [Assign "ACImageNameGoogleLogo" "Other"]) = None
  ∧ run ∅ (unit with_swift_private
             [Decl "title" false "Other"; Copy "ACImageNameGoogleLogo" "title"]) = None
  ∧ run ∅ (unit with_swift_private [Decl "ACImageNameGoogleLogo" false "Other"]) = None.
Proof. repeat split; vm_compute; reflexivity. Qed.

(** ** C4: the constants never change *)

(** C4. Every identifier of the header has one value, and that value is
    fixed: in the file scope the header sets up, each exported constant is
    a const object holding its declared value, and after any sequence of
    statements that compiles it is still the same object. *)
Theorem constants_immutable (has : string → bool)
    (σ0 σ : gmap string object) (p : list stmt) (t : list event) (c : constant) :
  run ∅ (included (exports has)) = Some (σ0, []) →
  run σ0 p = Some (σ, t) →
  c ∈ exports has →
  σ0 !! c_ident c = Some (Object true (c_value c))
  ∧ σ !! c_ident c = σ0 !! c_ident c
  ∧ Forall (λ d, c_ident d = c_ident c → c_value d = c_value c) (exports has).
Proof.
  intros H0 Hp Hc.
  destruct (header_included has) as (σ0' & H0' & Hi0).
  rewrite H0 in H0'. injection H0' as <-.
  destruct (run_intact _ p σ0 σ t Hi0 Hp) as [Hi _].
  split; [now apply Hi0 | split].
  - now rewrite (Hi c Hc), (Hi0 c Hc).
  - apply Forall_forall. intros d Hd Heq. now apply (exports_same_value has has).
Qed.

Lemma constants_immutable_witness :
  run ∅ (included (exports without_attributes)) = Some (scope0, [])
  ∧ run scope0 session = Some (scope1, trace1)
  ∧ GoogleLogo EmptyString ∈ exports without_attributes
  ∧ scope0 !! c_ident (GoogleLogo EmptyString)
    = Some (Object true (c_value (GoogleLogo EmptyString)))
  ∧ scope1 !! c_ident (GoogleLogo EmptyString)
    = scope0 !! c_ident (GoogleLogo EmptyString).
Proof.
  assert (H0 : run ∅ (included (exports without_attributes)) = Some (scope0, []))
    by (vm_compute; reflexivity).
  assert (H1 : run scope0 session = Some (scope1, trace1))
    by (vm_compute; reflexivity).
  assert (H2 : GoogleLogo EmptyString ∈ exports without_attributes)
    by (vm_compute; apply list_elem_of_here).
  destruct (constants_immutable without_attributes _ _ _ _ _ H0 H1 H2)
    as (Ha & Hb & _).
  split; [exact H0 | split; [exact H1 | split; [exact H2 | split]]].
  - exact Ha.
  - exact Hb.
Defined.

(** ** C5: lookups succeed *)

(** C5. Nothing the header offers can fail: it preprocesses without error,
    looking an exported identifier up in its table returns the value, and
    a unit that evaluates the identifier compiles and yields the value. *)
Theorem lookup_never_fails (has : string → bool) (c : constant) :
  c ∈ exports has →
  is_Some (preprocess has header)
  ∧ is_Some (lookup_constant has (c_ident c))
  ∧ lookup_constant has (c_ident c) = Some (c_value c)
  ∧ ∃ σ, run ∅ (unit has [Read (c_ident c)]) = Some (σ, [(c_ident c, c_value c)]).
Proof.
  intros Hc. pose proof (lookup_constant_export has c Hc) as Hl.
  split; [rewrite preprocess_header; eauto |].
  split; [rewrite Hl; eauto | split; [exact Hl |]].
  destruct (header_included has) as (σ0 & H0 & Hi0).
  exists σ0. unfold unit. rewrite run_app, H0. cbn [run exec].
  now rewrite (Hi0 c Hc).
Qed.

Lemma lookup_never_fails_witness :
  OrbitalLogo EmptyString ∈ exports without_attributes
  ∧ lookup_constant without_attributes (c_ident (OrbitalLogo EmptyString))
    = Some (c_value (OrbitalLogo EmptyString)).
Proof.
  assert (H : OrbitalLogo EmptyString ∈ exports without_attributes)
    by (vm_compute; apply list_elem_of_further, list_elem_of_here).
  split; [exact H |].
  destruct (lookup_never_fails without_attributes _ H) as (_ & _ & Hl & _).
  exact Hl.
Defined.

(** ** C6: evaluations agree *)

(** C6. Evaluating an exported identifier is deterministic: whatever two
    units that compile do, under whatever compilers, every evaluation of
    the identifier in the one yields the same string as every evaluation
    of it in the other (and so do two evaluations within one run). *)
Theorem reads_deterministic (has1 has2 : string → bool) (p1 p2 : list stmt)
    (σ1 σ2 : gmap string object) (t1 t2 : list event) (x v1 v2 : string) :
  run ∅ (unit has1 p1) = Some (σ1, t1) →
  run ∅ (unit has2 p2) = Some (σ2, t2) →
  x ∈ c_ident <$> exports has1 →
  (x, v1) ∈ t1 → (x, v2) ∈ t2 →
  v1 = v2.
Proof.
  intros H1 H2 Hx Hv1 Hv2.
  pose proof Hx as Hx2. rewrite (exports_same_idents has1 has2) in Hx2.
  apply list_elem_of_fmap in Hx as (c1 & -> & Hc1).
  apply list_elem_of_fmap in Hx2 as (c2 & Heq & Hc2). symmetry in Heq.
  destruct (unit_intact has1 p1 σ1 t1 H1) as [_ Hr1].
  destruct (unit_intact has2 p2 σ2 t2 H2) as [_ Hr2].
  rewrite (Hr1 c1 v1 Hc1 Hv1).
  rewrite <- Heq in Hv2. rewrite (Hr2 c2 v2 Hc2 Hv2).
  symmetry. now apply (exports_same_value has2 has1).
Qed.

Lemma reads_deterministic_witness :
  run ∅ (unit with_swift_private session) = Some (scope1, trace1)
  ∧ run ∅ (unit without_attributes [Read "ACImageNameGoogleLogo"])
    = Some (scope0, [("ACImageNameGoogleLogo", "GoogleLogo")])
  ∧ "ACImageNameGoogleLogo" ∈ c_ident <$> exports with_swift_private
  ∧ ("ACImageNameGoogleLogo", "GoogleLogo") ∈ trace1
  ∧ "GoogleLogo" = "GoogleLogo".
Proof.
  assert (H1 : run ∅ (unit with_swift_private session) = Some (scope1, trace1))
    by (vm_compute; reflexivity).
  assert (H2 : run ∅ (unit without_attributes [Read "ACImageNameGoogleLogo"])
               = Some (scope0, [("ACImageNameGoogleLogo", "GoogleLogo")]))
    by (vm_compute; reflexivity).
  assert (H3 : "ACImageNameGoogleLogo" ∈ c_ident <$> exports with_swift_private)
    by (vm_compute; apply list_elem_of_here).
  assert (H4 : ("ACImageNameGoogleLogo", "GoogleLogo") ∈ trace1)
    by (unfold trace1; apply list_elem_of_further, list_elem_of_here).
  assert (H5 : ("ACImageNameGoogleLogo", "GoogleLogo")
               ∈ [("ACImageNameGoogleLogo", "GoogleLogo")])
    by apply list_elem_of_here.
  split; [exact H1 | split; [exact H2 | split; [exact H3 | split; [exact H4 |]]]].
  exact (reads_deterministic _ _ _ _ _ _ _ _ _ _ _ H1 H2 H3 H4 H5).
Defined.

(** * Further properties of the header *)

(** ** The preprocessor frame *)

Lemma pp_lines_cons has st l ls :
  pp_lines has st (l :: ls) =
    match pp_line has st l with
    | Some st' => pp_lines has st' ls
    | None => None
    end.
Proof. reflexivity. Qed.

(** One line of a concrete text, with the conditions [Hh] (the compiler's
    answer) and [Ha] (whether the includer's lines take effect) used to
    settle which branch is taken. *)
Ltac pp_step Hh Ha :=
  rewrite pp_lines_cons;
  cbn [pp_line active forallb pp_cond pp_macros pp_doc pp_out];
  cbn [andb negb]; rewrite ?Hh, ?Ha; cbn [andb negb].


(** X1. At every declaration the macro AC_SWIFT_PRIVATE has been replaced:
    by the swift_private attribute when the compiler knows that attribute,
    by nothing when it does not. The macro name itself never reaches the
    declaration. *)
Theorem attribute_follows_compiler (has : string → bool) (c : constant) :
  c ∈ exports has →
  c_attr c = (if has "swift_private" then "__attribute__((swift_private))"
              else EmptyString)
  ∧ c_attr c ≠ AC_SWIFT_PRIVATE.
Proof.
  intros H. split.
  - each_export H; reflexivity.
  - each_export H; cbn; unfold expansion; destruct (has _); discriminate.
Qed.

Lemma attribute_follows_compiler_witness :
  GoogleLogo "__attribute__((swift_private))" ∈ exports with_swift_private
  ∧ c_attr (GoogleLogo "__attribute__((swift_private))")
    = "__attribute__((swift_private))".
Proof.
  assert (H : GoogleLogo "__attribute__((swift_private))" ∈ exports with_swift_private)
    by (vm_compute; apply list_elem_of_here).
  split; [exact H |].
  exact (proj1 (attribute_follows_compiler with_swift_private _ H)).
Defined.

(** X2. The header asks the compiler about one attribute only: two
    compilers that agree on swift_private get the same table. *)
Theorem exports_depend_on_swift_private (has1 has2 : string → bool) :
  has1 "swift_private" = has2 "swift_private" → exports has1 = exports has2.
Proof.
  intros H. rewrite !exports_entries. unfold expansion. now rewrite H.
Qed.

Lemma exports_depend_on_swift_private_witness :
  exports with_swift_private = exports (λ _, true).
Proof.
  apply exports_depend_on_swift_private. reflexivity.
Defined.



(** X4. Included inside a conditional group that was not selected, the
    header does nothing at all: no macro is defined or removed, no
    declaration is produced, and its own conditional is closed again. *)
Theorem header_skipped (has : string → bool) (st : pp_state) :
  active st = false → pp_lines has st header = Some st.
Proof.
  intros Ha. destruct st as [m cond doc out]. unfold active in Ha.
  cbn [pp_cond] in Ha. unfold header.
  destruct (has "swift_private") eqn:Hh; repeat pp_step Hh Ha; reflexivity.
Qed.

Lemma header_skipped_witness :
  active skipped = false ∧ pp_lines without_attributes skipped header = Some skipped.
Proof.
  assert (H : active skipped = false) by reflexivity.
  split; [exact H |].
  exact (header_skipped without_attributes skipped H).
Defined.

(** ** Including the header into a file scope *)

(** Where the declarations of a table compile, its identifiers were free. *)
Lemma run_included_free (cs : list constant) :
  ∀ (σ σ' : gmap string object) t,
    run σ (included cs) = Some (σ', t) →
    ∀ c, c ∈ cs → σ !! c_ident c = None.
Proof.
  induction cs as [| d cs IH]; intros σ σ' t Hr c Hc.
  - now apply elem_of_nil in Hc.
  - unfold included in Hr. rewrite fmap_cons in Hr. fold (included cs) in Hr.
    cbn [run exec] in Hr.
    destruct (σ !! c_ident d) as [o |] eqn:Hd; [discriminate |].
    destruct (run _ (included cs)) as [[σ1 t1] |] eqn:Hr1; [| discriminate].
    apply elem_of_cons in Hc as [-> | Hc]; [exact Hd |].
    pose proof (IH _ _ _ Hr1 c Hc) as Hn.
    apply lookup_insert_None in Hn as [Hn _]. exact Hn.
Qed.

(** Where an identifier of a table is taken, its declarations do not
    compile, whatever follows them. *)
Lemma run_included_clash (cs : list constant) (p : list stmt) :
  ∀ (σ : gmap string object) c,
    c ∈ cs → is_Some (σ !! c_ident c) → run σ (included cs ++ p) = None.
Proof.
  intros σ c Hc Hs. rewrite run_app.
  destruct (run σ (included cs)) as [[σ1 t1] |] eqn:Hr; [| reflexivity].
  rewrite (run_included_free cs σ σ1 t1 Hr c Hc) in Hs.
  now destruct Hs.
Qed.

(** X5. The header can be included into a file scope exactly when none of
    its three identifiers is already declared there. *)
Theorem inclusion_compiles_iff (has : string → bool) (σ : gmap string object) :
  is_Some (run σ (included (exports has)))
  ↔ Forall (λ c, σ !! c_ident c = None) (exports has).
Proof.
  rewrite Forall_forall. split.
  - intros [[σ' t] Hr] c Hc. exact (run_included_free _ σ σ' t Hr c Hc).
  - intros Hfree.
    destruct (run_included (exports has) σ (exports_NoDup_ident has) Hfree)
      as (σ' & Hr & _).
    rewrite Hr. eauto.
Qed.

(** The header does not go into a scope that took one of its names. *)
Example inclusion_into_taken :
  run taken (included (exports with_swift_private)) = None
  ∧ run busy (included (exports with_swift_private) ++ session) = None.
Proof. split; vm_compute; reflexivity. Qed.



(** X7. The header carries no include guard. Its text taken twice
    preprocesses to its declarations twice, and no translation unit that
    contains them twice compiles, whatever stands before or after. *)
Theorem double_inclusion_rejected (has : string → bool) :
  preprocess has (header ++ header) = Some (exports has ++ exports has)
  ∧ ∀ (σ : gmap string object) (p : list stmt),
      run σ (included (exports has ++ exports has) ++ p) = None.
Proof.
  split.
  - rewrite exports_entries. unfold preprocess, header, expansion.
    cbn [app]. assert (Ha : forallb (λ b : bool, b) [] = true) by reflexivity.
    unfold pp_init.
    destruct (has "swift_private") eqn:Hh; repeat pp_step Hh Ha; reflexivity.
  - intros σ p. unfold included. rewrite fmap_app, <- app_assoc.
    fold (included (exports has)). rewrite run_app.
    destruct (run σ (included (exports has))) as [[σ1 t1] |] eqn:Hr; [| reflexivity].
    pose proof (run_included_free _ σ σ1 t1 Hr) as Hfree.
    destruct (run_included (exports has) σ (exports_NoDup_ident has) Hfree)
      as (σ' & Hr' & Hi & _).
    rewrite Hr in Hr'. injection Hr' as -> ->.
    rewrite (run_included_clash (exports has) p σ' (GoogleLogo (expansion has)));
      [reflexivity | |].
    + rewrite exports_entries. apply list_elem_of_here.
    + rewrite Hi; [eauto |]. rewrite exports_entries. apply list_elem_of_here.
Qed.

(** ** What a client can do with the constants *)

(** A statement that compiles where the constants are intact does not
    define or assign any of them. *)
Lemma exec_target (cs : list constant) (σ σ' : gmap string object) s t x :
  intact cs σ → exec σ s = Some (σ', t) → target s = Some x →
  x ∉ c_ident <$> cs.
Proof.
  intros Hi He Ht Hx. apply list_elem_of_fmap in Hx as (c & -> & Hc).
  pose proof (Hi c Hc) as Hl.
  destruct s as [y k v | y v | y z | y]; cbn [target] in Ht; try discriminate;
    injection Ht as ->; cbn [exec] in He; rewrite Hl in He; discriminate.
Qed.

Lemma run_target (cs : list constant) (p : list stmt) :
  ∀ (σ σ' : gmap string object) t,
    intact cs σ → run σ p = Some (σ', t) →
    Forall (λ s, ∀ x, target s = Some x → x ∉ c_ident <$> cs) p.
Proof.
  induction p as [| s p IH]; intros σ σ' t Hi Hr; [apply Forall_nil_2 |].
  cbn [run] in Hr.
  destruct (exec σ s) as [[σ1 t1] |] eqn:He; [| discriminate].
  destruct (run σ1 p) as [[σ2 t2] |] eqn:Hp; [| discriminate].
  apply Forall_cons. split.
  - intros x Hx. exact (exec_target cs σ σ1 s t1 x Hi He Hx).
  - destruct (exec_intact cs σ σ1 s t1 Hi He) as [Hi1 _].
    exact (IH σ1 σ2 t2 Hi1 Hp).
Qed.

(** X8. A translation unit that includes the header and compiles contains
    no statement that defines or assigns one of the exported identifiers:
    the constants can be evaluated and copied from, and nothing else. *)
Theorem unit_never_writes_constants (has : string → bool) (p : list stmt)
    (σ : gmap string object) (t : list event) :
  run ∅ (unit has p) = Some (σ, t) →
  Forall (λ s, ∀ x, target s = Some x → x ∉ c_ident <$> exports has) p.
Proof.
  unfold unit. rewrite run_app.
  destruct (header_included has) as (σ0 & -> & Hi0).
  destruct (run σ0 p) as [[σ1 t1] |] eqn:Hp; [| discriminate].
  intros _. exact (run_target _ p σ0 σ1 t1 Hi0 Hp).
Qed.

Lemma unit_never_writes_constants_witness :
  run ∅ (unit with_swift_private session) = Some (scope1, trace1)
  ∧ Forall (λ s, ∀ x, target s = Some x
                      → x ∉ c_ident <$> exports with_swift_private) session.
Proof.
  assert (H : run ∅ (unit with_swift_private session) = Some (scope1, trace1))
    by (vm_compute; reflexivity).
  split; [exact H |].
  exact (unit_never_writes_constants with_swift_private session scope1 trace1 H).
Defined.



